(** * Change detection by content fingerprint: the [watch] package

    A shallow embedding of [watch.go] (package [watch] of falun/watch) and of
    the file-backed target, followed by the properties of the manual poll
    ([Updated]), of the diff routine ([targetDiff]), of the byte comparison
    ([byteSliceMatch]) and of the tick handling of the loop started by
    [OnInterval].

    Conventions.
    - A Go [[]byte] is a [list byte]; the nil slice is [[]] (the code only
      ever takes [len] of a slice and indexes it, so nil and empty agree).
    - A Go [error] is an [option string]: [None] is [nil], [Some msg] is an
      error whose [Error()] text is [msg].
    - A run-time panic is the [None] of an outer [option].
    - [Content()] reads the outside world; the world it sees at a call is an
      explicit argument of that call. *)

From Stdlib Require Import ZArith List Bool Lia.
From Stdlib Require Import Strings.Ascii Strings.String Strings.Byte.
Import ListNotations.

Local Open Scope Z_scope.

Definition bytes := list byte.
Definition error := option string.

(* ------------------------------------------------------------------ *)
(** ** [crypto/md5]

    [md5.Sum] belongs to the Go standard library; it is written out here
    after RFC 1321 so that digests can be computed.  32-bit words are [Z]
    with the wrap-around explicit. *)

Module MD5.

Definition wrap32 (x : Z) : Z := x mod 2 ^ 32.
Definition add32 (x y : Z) : Z := wrap32 (x + y).
Definition not32 (x : Z) : Z := Z.lxor x 0xffffffff.
Definition rotl32 (x c : Z) : Z :=
  Z.lor (wrap32 (Z.shiftl x c)) (Z.shiftr x (32 - c)).

Definition F (b c d : Z) : Z := Z.lor (Z.land b c) (Z.land (not32 b) d).
Definition G (b c d : Z) : Z := Z.lor (Z.land b d) (Z.land c (not32 d)).
Definition H (b c d : Z) : Z := Z.lxor (Z.lxor b c) d.
Definition I (b c d : Z) : Z := Z.lxor c (Z.lor b (not32 d)).

(** T[i] = floor (2^32 * |sin (i + 1)|). *)
Definition T : list Z :=
  [ 0xd76aa478; 0xe8c7b756; 0x242070db; 0xc1bdceee;
    0xf57c0faf; 0x4787c62a; 0xa8304613; 0xfd469501;
    0x698098d8; 0x8b44f7af; 0xffff5bb1; 0x895cd7be;
    0x6b901122; 0xfd987193; 0xa679438e; 0x49b40821;
    0xf61e2562; 0xc040b340; 0x265e5a51; 0xe9b6c7aa;
    0xd62f105d; 0x02441453; 0xd8a1e681; 0xe7d3fbc8;
    0x21e1cde6; 0xc33707d6; 0xf4d50d87; 0x455a14ed;
    0xa9e3e905; 0xfcefa3f8; 0x676f02d9; 0x8d2a4c8a;
    0xfffa3942; 0x8771f681; 0x6d9d6122; 0xfde5380c;
    0xa4beea44; 0x4bdecfa9; 0xf6bb4b60; 0xbebfbc70;
    0x289b7ec6; 0xeaa127fa; 0xd4ef3085; 0x04881d05;
    0xd9d4d039; 0xe6db99e5; 0x1fa27cf8; 0xc4ac5665;
    0xf4292244; 0x432aff97; 0xab9423a7; 0xfc93a039;
    0x655b59c3; 0x8f0ccc92; 0xffeff47d; 0x85845dd1;
    0x6fa87e4f; 0xfe2ce6e0; 0xa3014314; 0x4e0811a1;
    0xf7537e82; 0xbd3af235; 0x2ad7d2bb; 0xeb86d391 ].

(** Per-step left rotations. *)
Definition shifts : list Z :=
  [ 7; 12; 17; 22; 7; 12; 17; 22; 7; 12; 17; 22; 7; 12; 17; 22;
    5;  9; 14; 20; 5;  9; 14; 20; 5;  9; 14; 20; 5;  9; 14; 20;
    4; 11; 16; 23; 4; 11; 16; 23; 4; 11; 16; 23; 4; 11; 16; 23;
    6; 10; 15; 21; 6; 10; 15; 21; 6; 10; 15; 21; 6; 10; 15; 21 ].

Definition byte_to_Z (b : byte) : Z := Z.of_N (Byte.to_N b).
Definition Z_to_byte (x : Z) : byte :=
  match Byte.of_N (Z.to_N (x mod 256)) with
  | Some b => b
  | None => x00
  end.

(** Little-endian encodings. *)
Definition word_bytes (x : Z) : bytes :=
  [ Z_to_byte x; Z_to_byte (Z.shiftr x 8);
    Z_to_byte (Z.shiftr x 16); Z_to_byte (Z.shiftr x 24) ].

Definition bytes_word (l : bytes) : Z :=
  fold_right (fun b acc => byte_to_Z b + 256 * acc) 0 l.

Fixpoint chunks (k : nat) (n : nat) (l : bytes) : list bytes :=
  match n with
  | O => []
  | S n' => firstn k l :: chunks k n' (skipn k l)
  end.

(** The message, one [0x80], zeros up to 56 modulo 64, then the bit length
    on 64 bits. *)
Definition pad (msg : bytes) : bytes :=
  let len := Z.of_nat (List.length msg) in
  let zeros := Z.to_nat ((55 - len) mod 64) in
  let bits := (8 * len) mod 2 ^ 64 in
  msg ++ [x80] ++ repeat x00 zeros
      ++ word_bytes bits ++ word_bytes (Z.shiftr bits 32).

Definition state : Type := Z * Z * Z * Z.

Definition init : state := (0x67452301, 0xefcdab89, 0x98badcfe, 0x10325476).

Definition step (M : list Z) (st : state) (i : nat) : state :=
  let '(a, b, c, d) := st in
  let '(f, g) :=
    if (i <? 16)%nat then (F b c d, i)
    else if (i <? 32)%nat then (G b c d, (5 * i + 1) mod 16)%nat
    else if (i <? 48)%nat then (H b c d, (3 * i + 5) mod 16)%nat
    else (I b c d, (7 * i) mod 16)%nat in
  let f' := add32 (add32 (add32 f a) (nth i T 0)) (nth g M 0) in
  (d, add32 b (rotl32 f' (nth i shifts 0)), b, c).

Definition block (st : state) (blk : bytes) : state :=
  let M := map bytes_word (chunks 4 16 blk) in
  let '(a, b, c, d) := st in
  let '(a', b', c', d') := fold_left (step M) (seq 0 64) st in
  (add32 a a', add32 b b', add32 c c', add32 d d').

Definition Sum (data : bytes) : bytes :=
  let p := pad data in
  let '(a, b, c, d) :=
    fold_left block (chunks 64 (List.length p / 64) p) init in
  word_bytes a ++ word_bytes b ++ word_bytes c ++ word_bytes d.

Definition Size : nat := 16.

End MD5.

(* ------------------------------------------------------------------ *)
(** ** Small option monad: [None] is a run-time panic *)

Definition bind {A B : Type} (m : option A) (k : A -> option B) : option B :=
  match m with
  | Some a => k a
  | None => None
  end.

Notation "x <- m ;; k" := (bind m (fun x => k))
  (at level 61, m at next level, right associativity).
Notation "' p <- m ;; k" := (bind m (fun x => match x with p => k end))
  (at level 61, p pattern, m at next level, right associativity).

(** The text of the error [targetDiff] builds around a fetch error. *)
Definition wrapped (msg : string) : string :=
  ("Unable to get target content: " ++ msg)%string.

(** Equality of byte sequences, length included. *)
Definition bytes_eqb (a b : bytes) : bool :=
  if list_eq_dec Byte.byte_eq_dec a b then true else false.

(* ------------------------------------------------------------------ *)
(** ** [byteSliceMatch]

    The loop [for i := range a] visits [0 .. len(a)-1]; [a[i]] and [b[i]]
    are checked accesses, out of range being a panic. *)

Definition index (s : bytes) (i : nat) : option byte := nth_error s i.

Fixpoint byteSliceMatch_range (a b : bytes) (range : list nat) : option bool :=
  match range with
  | [] => Some true
  | i :: range' =>
      x <- index a i ;;
      y <- index b i ;;
      if negb (Byte.eqb x y) then Some false
      else byteSliceMatch_range a b range'
  end.

Definition byteSliceMatch (a b : bytes) : option bool :=
  if negb (List.length a =? List.length b)%nat then Some false
  else byteSliceMatch_range a b (seq 0 (List.length a)).

(* ------------------------------------------------------------------ *)
(** ** [Watched], [watcher], [targetDiff], [Updated] *)

(** [type Watched interface]: an implementation [T] observed in a [World]. *)
Class Watched (World T : Type) : Type := {
  FailOpen : T -> bool;
  Content : T -> World -> bytes * error
}.

(** [type watcher struct]. *)
Record watcher (T : Type) : Type := mkWatcher {
  target : T;
  lastHash : bytes
}.
Arguments mkWatcher {T} _ _.
Arguments target {T} _.
Arguments lastHash {T} _.

(** States of the goroutine started by [OnInterval], named after the point
    of the code it waits at, and the cases its [select]s can take. *)
Inductive loopState : Type :=
| Selecting (lastHash : bytes)   (* outer select, [cancelled = false] *)
| Emitting (lastHash : bytes)    (* inner select, a send is pending *)
| Closed.                        (* loop left, [close(updatedCh)] done *)

Inductive selectCase (World : Type) : Type :=
| CaseDone                       (* [<-done] *)
| CaseTick (wd : World)          (* [<-ticker.C]; [Content] then sees [wd] *)
| CaseSend.                      (* [updatedCh <- struct{}{}] is received *)
Arguments CaseDone {World}.
Arguments CaseTick {World} _.
Arguments CaseSend {World}.

(** What happens on one [Watch]: a manual poll, or the goroutine's select
    taking a case. *)
Inductive event (World : Type) : Type :=
| Poll (wd : World)
| Loop (c : selectCase World).
Arguments Poll {World} _.
Arguments Loop {World} _.

Section Watch.
Context {World T : Type} `{Watched World T}.

(** [NewWatched] in watch.go; the later revision of the file calls it
    [New], same body. *)
Definition NewWatched (target : T) : watcher T := mkWatcher target [].
Definition New (target : T) : watcher T := mkWatcher target [].

Definition targetDiff (w : watcher T) (token : bytes) (wd : World)
  : option (bytes * bool * error) :=
  let '(content, err) := Content (target w) wd in
  match err with
  | Some msg =>
      Some ([], FailOpen (target w),
            Some ("Unable to get target content: " ++ msg)%string)
  | None =>
      let hash := MD5.Sum content in
      matched <- byteSliceMatch hash token ;;
      if matched then Some (token, false, None)
      else Some (hash, true, None)
  end.

Definition Updated (w : watcher T) (wd : World)
  : option (watcher T * (bool * error)) :=
  '(newHash, diff, err) <- targetDiff w (lastHash w) wd ;;
  match err with
  | None => Some (mkWatcher (target w) newHash, (diff, err))
  | Some _ => Some (w, (diff, err))
  end.

(** Body of [case <-ticker.C]: the goroutine's [lastHash] afterwards, and
    whether the inner select is entered. *)
Definition onTick (w : watcher T) (lastHash : bytes) (wd : World)
  : option (bytes * bool) :=
  '(checkedHash, updated, err) <- targetDiff w lastHash wd ;;
  match err with
  | None => if updated then Some (checkedHash, true)
            else Some (lastHash, false)
  | Some _ => Some (lastHash, false)
  end.

(** [var lastHash []byte; cancelled := false]. *)
Definition OnInterval : loopState := Selecting [].

(** One case taken by the goroutine.  [None]: the case cannot be taken in
    that state, or the tick body panicked. *)
Definition loop_step (w : watcher T) (st : loopState) (c : selectCase World)
  : option loopState :=
  match st, c with
  | Selecting _, CaseDone => Some Closed
  | Selecting lastHash, CaseTick wd =>
      '(lastHash', send) <- onTick w lastHash wd ;;
      Some (if send then Emitting lastHash' else Selecting lastHash')
  | Emitting lastHash, CaseSend => Some (Selecting lastHash)
  | Emitting _, CaseDone => Some Closed
  | _, _ => None
  end.

(** Successive manual polls, one world per call. *)
Fixpoint polls (w : watcher T) (wds : list World)
  : option (watcher T * list (bool * error)) :=
  match wds with
  | [] => Some (w, [])
  | wd :: wds' =>
      '(w1, r) <- Updated w wd ;;
      '(w2, rs) <- polls w1 wds' ;;
      Some (w2, r :: rs)
  end.

(** The goroutine alone; [w] is the watcher it closes over. *)
Fixpoint loop_run (w : watcher T) (st : loopState)
         (cs : list (selectCase World)) : option loopState :=
  match cs with
  | [] => Some st
  | c :: cs' => st' <- loop_step w st c ;; loop_run w st' cs'
  end.

(** Manual polls alone, keeping only the watcher. *)
Fixpoint poll_run (w : watcher T) (wds : list World) : option (watcher T) :=
  match wds with
  | [] => Some w
  | wd :: wds' => '(w', _) <- Updated w wd ;; poll_run w' wds'
  end.

(** Polls and goroutine steps interleaved on one watcher. *)
Fixpoint run (w : watcher T) (st : loopState) (evs : list (event World))
  : option (watcher T * loopState) :=
  match evs with
  | [] => Some (w, st)
  | Poll wd :: evs' => '(w', _) <- Updated w wd ;; run w' st evs'
  | Loop c :: evs' => st' <- loop_step w st c ;; run w st' evs'
  end.

Definition polled (evs : list (event World)) : list World :=
  flat_map (fun e => match e with Poll wd => [wd] | Loop _ => [] end) evs.

Definition looped (evs : list (event World)) : list (selectCase World) :=
  flat_map (fun e => match e with Poll _ => [] | Loop c => [c] end) evs.

(** What the callers of [Updated] are promised, stated on the contents
    fetched so far and not on the stored hash: [prev] is the content of the
    most recent successful fetch, if any.  A successful call reports a
    change when there is no such content or when its digest differs from
    the new one; a failed call reports the fail-open flag. *)
Definition digest_differs (prev : option bytes) (content : bytes) : bool :=
  match prev with
  | None => true
  | Some p => negb (bytes_eqb (MD5.Sum p) (MD5.Sum content))
  end.

Fixpoint expected_polls (t : T) (prev : option bytes) (wds : list World)
  : list (bool * error) :=
  match wds with
  | [] => []
  | wd :: wds' =>
      match Content t wd with
      | (content, None) =>
          (digest_differs prev content, None)
            :: expected_polls t (Some content) wds'
      | (_, Some msg) =>
          (FailOpen t, Some (wrapped msg)) :: expected_polls t prev wds'
      end
  end.

(** The fetch fails in world [wd]. *)
Definition fetch_fails (t : T) (wd : World) : Prop :=
  snd (Content t wd) <> None.

(** The result of a poll whose fetch failed. *)
Definition failure_result (t : T) (wd : World) : bool * error :=
  (FailOpen t, option_map wrapped (snd (Content t wd))).

(** The stored hash is the digest of the last content fetched. *)
Definition remembers (w : watcher T) (prev : option bytes) : Prop :=
  lastHash w = match prev with
               | None => []
               | Some p => MD5.Sum p
               end.

End Watch.

(* ------------------------------------------------------------------ *)
(** ** Histories of fetches and of select cases *)

Section Traces.
Context {World T : Type} `{Watched World T}.

(** The hash kept once [prev] is the last content fetched: nil before any
    fetch succeeded. *)
Definition fingerprint (prev : option bytes) : bytes :=
  match prev with
  | None => []
  | Some p => MD5.Sum p
  end.

(** The content of the last fetch that succeeded in [wds], [prev] if none
    did. *)
Fixpoint last_fetched (t : T) (prev : option bytes) (wds : list World)
  : option bytes :=
  match wds with
  | [] => prev
  | wd :: wds' =>
      match Content t wd with
      | (content, None) => last_fetched t (Some content) wds'
      | (_, Some _) => last_fetched t prev wds'
      end
  end.

(** How many fetches of [wds] succeed. *)
Definition fetched (t : T) (wds : list World) : nat :=
  List.length
    (filter (fun wd => match snd (Content t wd) with
                       | None => true
                       | Some _ => false
                       end) wds).

(** The worlds seen by the ticks of a run, and the number of sends that a
    consumer received. *)
Definition ticks (cs : list (selectCase World)) : list World :=
  flat_map (fun c => match c with CaseTick wd => [wd] | _ => [] end) cs.

Definition sends (cs : list (selectCase World)) : nat :=
  List.length
    (filter (fun c => match c with CaseSend => true | _ => false end) cs).

(** The goroutine's [lastHash], while it runs. *)
Definition loop_hash (st : loopState) : option bytes :=
  match st with
  | Selecting h | Emitting h => Some h
  | Closed => None
  end.

(** One pending send in [Emitting], none elsewhere. *)
Definition pending (st : loopState) : nat :=
  match st with
  | Emitting _ => 1%nat
  | _ => 0%nat
  end.

(** In world [wd] the target shows nothing that a holder of hash [h] has not
    seen: the fetch fails, or the content has digest [h]. *)
Definition nothing_new (t : T) (h : bytes) (wd : World) : Prop :=
  match Content t wd with
  | (content, None) => MD5.Sum content = h
  | (_, Some _) => True
  end.

End Traces.

(* ------------------------------------------------------------------ *)
(** ** The file target *)

(** [ioutil.ReadFile] on the file system of the moment. *)
Definition FileSystem : Type := string -> bytes * error.
Definition ReadFile (fs : FileSystem) (path : string) : bytes * error := fs path.

Record watchedFile : Type := mkWatchedFile {
  path : string;
  failOpen : bool
}.

Definition FileTarget (path : string) (failOpen : bool) : watchedFile :=
  mkWatchedFile path failOpen.

Definition watchedFile_FailOpen (wf : watchedFile) : bool := failOpen wf.

Definition watchedFile_Content (wf : watchedFile) (fs : FileSystem)
  : bytes * error :=
  let '(configContents, err) := ReadFile fs (path wf) in
  match err with
  | Some e => ([], Some ("Unable to read config file: " ++ e)%string)
  | None => (configContents, None)
  end.

#[export] Instance watchedFile_Watched : Watched FileSystem watchedFile := {
  FailOpen := watchedFile_FailOpen;
  Content := watchedFile_Content
}.

Definition File (path : string) : watcher watchedFile :=
  NewWatched (FileTarget path true).

(* ------------------------------------------------------------------ *)
(** ** The demo's poll mode

    [mainPoll] watches [File(path)] and, at every tick of a one-second
    ticker, calls [Updated] and prints the result with
    [fmt.Printf("Updated? %v, %v\n", updated, err)].  The file systems seen
    at the ticks that happen before the program ends are the argument. *)

Definition newline : string := String "010"%char EmptyString.

(** [%v] of a [bool] and of an [error]. *)
Definition format_bool (b : bool) : string :=
  if b then "true"%string else "false"%string.

Definition format_error (e : error) : string :=
  match e with
  | None => "<nil>"%string
  | Some msg => msg
  end.

Definition poll_line (r : bool * error) : string :=
  ("Updated? " ++ format_bool (fst r) ++ ", " ++ format_error (snd r)
     ++ newline)%string.

Definition mainPoll (path : string) (fss : list FileSystem)
  : option (list string) :=
  '(_, rs) <- polls (File path) fss ;;
  Some (map poll_line rs).

(* ------------------------------------------------------------------ *)
(** ** Concrete data used in the examples *)

Definition hello : bytes := [x68; x65; x6c; x6c; x6f].
Definition world : bytes := [x77; x6f; x72; x6c; x64].

(** Two 128-byte messages that differ in six bytes (Wang and Yu, 2004). *)
Definition blockA : bytes :=
  [ xd1; x31; xdd; x02; xc5; xe6; xee; xc4; x69; x3d; x9a; x06; x98; xaf; xf9; x5c;
    x2f; xca; xb5; x87; x12; x46; x7e; xab; x40; x04; x58; x3e; xb8; xfb; x7f; x89;
    x55; xad; x34; x06; x09; xf4; xb3; x02; x83; xe4; x88; x83; x25; x71; x41; x5a;
    x08; x51; x25; xe8; xf7; xcd; xc9; x9f; xd9; x1d; xbd; xf2; x80; x37; x3c; x5b;
    xd8; x82; x3e; x31; x56; x34; x8f; x5b; xae; x6d; xac; xd4; x36; xc9; x19; xc6;
    xdd; x53; xe2; xb4; x87; xda; x03; xfd; x02; x39; x63; x06; xd2; x48; xcd; xa0;
    xe9; x9f; x33; x42; x0f; x57; x7e; xe8; xce; x54; xb6; x70; x80; xa8; x0d; x1e;
    xc6; x98; x21; xbc; xb6; xa8; x83; x93; x96; xf9; x65; x2b; x6f; xf7; x2a; x70 ].

Definition blockB : bytes :=
  [ xd1; x31; xdd; x02; xc5; xe6; xee; xc4; x69; x3d; x9a; x06; x98; xaf; xf9; x5c;
    x2f; xca; xb5; x07; x12; x46; x7e; xab; x40; x04; x58; x3e; xb8; xfb; x7f; x89;
    x55; xad; x34; x06; x09; xf4; xb3; x02; x83; xe4; x88; x83; x25; xf1; x41; x5a;
    x08; x51; x25; xe8; xf7; xcd; xc9; x9f; xd9; x1d; xbd; x72; x80; x37; x3c; x5b;
    xd8; x82; x3e; x31; x56; x34; x8f; x5b; xae; x6d; xac; xd4; x36; xc9; x19; xc6;
    xdd; x53; xe2; x34; x87; xda; x03; xfd; x02; x39; x63; x06; xd2; x48; xcd; xa0;
    xe9; x9f; x33; x42; x0f; x57; x7e; xe8; xce; x54; xb6; x70; x80; x28; x0d; x1e;
    xc6; x98; x21; xbc; xb6; xa8; x83; x93; x96; xf9; x65; xab; x6f; xf7; x2a; x70 ].

(** A watcher on ["cfg"] that has seen ["hello"]. *)
Definition seen_hello : watcher watchedFile :=
  mkWatcher (FileTarget "cfg" true) (MD5.Sum hello).

(** A file system holding one file, ["cfg"]. *)
Definition holding (content : bytes) : FileSystem :=
  fun p => if String.eqb p "cfg"
           then (content, None)
           else ([], Some ("open " ++ p ++ ": no such file or directory")%string).

(** A file system holding ["hello"] in ["cfg"] and ["world"] in every other
    file. *)
Definition crowded_fs : FileSystem :=
  fun p => if String.eqb p "cfg" then (hello, None) else (world, None).

(** A file system holding nothing. *)
Definition empty_fs : FileSystem :=
  fun p => ([], Some ("open " ++ p ++ ": no such file or directory")%string).

(* ================================================================== *)
(** * Properties *)

(** ** [crypto/md5] against the RFC 1321 test suite *)

Lemma md5_Sum_length (data : bytes) : List.length (MD5.Sum data) = MD5.Size.
Proof.
  unfold MD5.Sum.
  destruct (fold_left _ _ _) as [[[a b] c] d].
  reflexivity.
Qed.

Example md5_empty :
  MD5.Sum [] =
  [xd4; x1d; x8c; xd9; x8f; x00; xb2; x04; xe9; x80; x09; x98; xec; xf8; x42; x7e].
Proof. vm_compute. reflexivity. Qed.

Example md5_abc :
  MD5.Sum [x61; x62; x63] =
  [x90; x01; x50; x98; x3c; xd2; x4f; xb0; xd6; x96; x3f; x7d; x28; xe1; x7f; x72].
Proof. vm_compute. reflexivity. Qed.

Example md5_message_digest :
  MD5.Sum [x6d; x65; x73; x73; x61; x67; x65; x20; x64; x69; x67; x65; x73; x74] =
  [xf9; x6b; x69; x7d; x7c; xb7; x93; x8d; x52; x5a; x2f; x31; xaa; xf1; x61; xd0].
Proof. vm_compute. reflexivity. Qed.

Example md5_56_a :
  MD5.Sum (repeat x61 56) =
  [x3b; x0c; x8a; xc7; x03; xf8; x28; xb0; x4c; x6c; x19; x70; x06; xd1; x72; x18].
Proof. vm_compute. reflexivity. Qed.

(* ------------------------------------------------------------------ *)
(** ** The comparison routine *)

Lemma bytes_eqb_true (a b : bytes) : bytes_eqb a b = true <-> a = b.
Proof.
  unfold bytes_eqb. destruct (list_eq_dec _ a b); split; congruence.
Qed.

Lemma bytes_eqb_refl (a : bytes) : bytes_eqb a a = true.
Proof. now apply bytes_eqb_true. Qed.

Lemma byte_eqb_refl (x : byte) : Byte.eqb x x = true.
Proof. now apply Byte.byte_dec_lb. Qed.

(** Dropping the heads shifts the range by one. *)
Lemma byteSliceMatch_range_cons (x y : byte) (a b : bytes) (n k : nat) :
  byteSliceMatch_range (x :: a) (y :: b) (seq (S k) n)
  = byteSliceMatch_range a b (seq k n).
Proof.
  revert k. induction n as [|n IH]; intro k; simpl; [reflexivity|].
  now rewrite IH.
Qed.

Lemma byteSliceMatch_range_same_length (a : bytes) :
  forall b, List.length a = List.length b ->
  byteSliceMatch_range a b (seq 0 (List.length a)) = Some (bytes_eqb a b).
Proof.
  induction a as [|x a IH]; intros [|y b] Hlen; simpl in Hlen; try discriminate.
  - reflexivity.
  - injection Hlen as Hlen.
    cbn [List.length seq byteSliceMatch_range index nth_error bind].
    rewrite byteSliceMatch_range_cons, (IH b Hlen).
    destruct (Byte.eqb x y) eqn:E; cbn [negb]; f_equal; symmetry.
    + apply Byte.byte_dec_bl in E. subst y.
      destruct (bytes_eqb a b) eqn:Eab.
      * apply bytes_eqb_true in Eab. subst b. apply bytes_eqb_refl.
      * destruct (bytes_eqb (x :: a) (x :: b)) eqn:E'; [|reflexivity].
        apply bytes_eqb_true in E'. injection E' as E'.
        apply bytes_eqb_true in E'. congruence.
    + destruct (bytes_eqb (x :: a) (y :: b)) eqn:E'; [|reflexivity].
      apply bytes_eqb_true in E'. injection E' as -> _.
      rewrite byte_eqb_refl in E. discriminate.
Qed.

(** The comparison never panics and decides equality of the two slices. *)
Lemma byteSliceMatch_eqb (a b : bytes) :
  byteSliceMatch a b = Some (bytes_eqb a b).
Proof.
  unfold byteSliceMatch.
  destruct (Nat.eqb_spec (List.length a) (List.length b)) as [Hlen|Hlen]; cbn [negb].
  - now apply byteSliceMatch_range_same_length.
  - f_equal. symmetry.
    destruct (bytes_eqb a b) eqn:E; [|reflexivity].
    apply bytes_eqb_true in E. congruence.
Qed.

(** C9. For every pair of byte slices [byteSliceMatch] returns a boolean (no
    out-of-range access, whatever the lengths, a nil token included); it
    returns [true] exactly when the two slices are the same sequence of
    bytes, length included; and slices of different lengths are reported
    different. *)
Theorem byteSliceMatch_total_and_exact (a b : bytes) :
  (exists r, byteSliceMatch a b = Some r) /\
  (byteSliceMatch a b = Some true <-> a = b) /\
  (List.length a <> List.length b -> byteSliceMatch a b = Some false).
Proof.
  rewrite byteSliceMatch_eqb. repeat split.
  - eauto.
  - intros [= E]. now apply bytes_eqb_true.
  - intros ->. now rewrite bytes_eqb_refl.
  - intros Hlen. f_equal.
    destruct (bytes_eqb a b) eqn:E; [|reflexivity].
    apply bytes_eqb_true in E. congruence.
Qed.

Lemma byteSliceMatch_total_and_exact_witness :
  List.length (MD5.Sum hello) <> List.length (@nil byte) /\
  byteSliceMatch (MD5.Sum hello) [] = Some false.
Proof.
  split.
  - vm_compute. discriminate.
  - apply (byteSliceMatch_total_and_exact (MD5.Sum hello) []).
    vm_compute. discriminate.
Defined.

(* ------------------------------------------------------------------ *)
(** ** [targetDiff] and [Updated], one call *)

Section OneCall.
Context {World T : Type} `{Watched World T}.
Implicit Types (w : watcher T) (wd : World) (token content : bytes).

Lemma targetDiff_failed w token wd content msg :
  Content (target w) wd = (content, Some msg) ->
  targetDiff w token wd = Some ([], FailOpen (target w), Some (wrapped msg)).
Proof. intros HC. unfold targetDiff. now rewrite HC. Qed.

Lemma targetDiff_fetched w token wd content :
  Content (target w) wd = (content, None) ->
  targetDiff w token wd =
    Some (if bytes_eqb (MD5.Sum content) token
          then (token, false, None)
          else (MD5.Sum content, true, None)).
Proof.
  intros HC. unfold targetDiff. rewrite HC, byteSliceMatch_eqb.
  cbn [bind]. now destruct (bytes_eqb _ _).
Qed.

Lemma Updated_failed w wd content msg :
  Content (target w) wd = (content, Some msg) ->
  Updated w wd = Some (w, (FailOpen (target w), Some (wrapped msg))).
Proof.
  intros HC. unfold Updated.
  now rewrite (targetDiff_failed _ _ _ _ _ HC).
Qed.

Lemma Updated_fetched w wd content :
  Content (target w) wd = (content, None) ->
  Updated w wd =
    Some (mkWatcher (target w) (MD5.Sum content),
          (negb (bytes_eqb (MD5.Sum content) (lastHash w)), None)).
Proof.
  intros HC. unfold Updated.
  rewrite (targetDiff_fetched _ _ _ _ HC).
  destruct (bytes_eqb _ _) eqn:E; cbn [bind negb]; [|reflexivity].
  apply bytes_eqb_true in E. now rewrite E.
Qed.

(** [Updated] always returns, and never swaps the target. *)
Lemma Updated_returns w wd :
  exists w' r, Updated w wd = Some (w', r) /\ target w' = target w.
Proof.
  destruct (Content (target w) wd) as [content [msg|]] eqn:HC.
  - rewrite (Updated_failed _ _ _ _ HC). eauto.
  - rewrite (Updated_fetched _ _ _ HC). eauto.
Qed.

(** C5 (amended). When the fetch fails, [targetDiff] returns the nil slice
    as fingerprint, whatever token it was given, together with
    [changed = FailOpen()] and the wrapped error; the caller's token
    survives only because both callers drop the returned fingerprint when
    the error is not nil. *)
Theorem targetDiff_failure_returns_nil w token wd content msg :
  Content (target w) wd = (content, Some msg) ->
  targetDiff w token wd = Some ([], FailOpen (target w), Some (wrapped msg)).
Proof. apply targetDiff_failed. Qed.

(** C4. A call of [Updated] that returns an error leaves [lastHash] as it
    was (the watcher is returned unchanged), so any later call behaves as
    if the failed one had not happened. *)
Theorem Updated_error_keeps_lastHash w wd w' changed msg :
  Updated w wd = Some (w', (changed, Some msg)) ->
  lastHash w' = lastHash w /\
  forall wd2, Updated w' wd2 = Updated w wd2.
Proof.
  unfold Updated.
  destruct (targetDiff w (lastHash w) wd) as [[[newHash diff] [e|]]|];
    cbn [bind]; intros [= <- _ _]; split; reflexivity.
Qed.

End OneCall.

(* ------------------------------------------------------------------ *)
(** ** Sequences of manual polls *)

Section Polling.
Context {World T : Type} `{Watched World T}.
Implicit Types (w : watcher T) (t : T) (wd : World) (wds : list World).

Lemma polls_all_failing w wds :
  Forall (fetch_fails (target w)) wds ->
  polls w wds = Some (w, map (failure_result (target w)) wds).
Proof.
  induction 1 as [|wd wds Hwd _ IH]; [reflexivity|].
  unfold fetch_fails in Hwd. cbn [polls map].
  destruct (Content (target w) wd) as [content [msg|]] eqn:HC;
    [|now contradiction Hwd].
  rewrite (Updated_failed _ _ _ _ HC). cbn [bind]. rewrite IH. cbn [bind].
  unfold failure_result at 2. now rewrite HC.
Qed.

(** C2. On a target whose [Content()] fails at every call, every
    [Updated()] returns an error together with [changed = FailOpen()]:
    [(true, err)] when fail-open, [(false, err)] when fail-closed; and the
    watcher is left as it was. *)
Theorem Updated_always_failing_reports_failOpen w wds :
  Forall (fetch_fails (target w)) wds ->
  exists rs,
    polls w wds = Some (w, rs) /\
    List.length rs = List.length wds /\
    Forall (fun r => fst r = FailOpen (target w) /\ snd r <> None) rs.
Proof.
  intros Hall. exists (map (failure_result (target w)) wds).
  split; [now apply polls_all_failing|]. split; [apply length_map|].
  apply Forall_map. eapply Forall_impl; [|exact Hall].
  intros wd Hwd. unfold fetch_fails in Hwd. unfold failure_result. cbn.
  split; [reflexivity|]. now destruct (snd (Content (target w) wd)).
Qed.

(** C3. On a freshly constructed watcher, the first [Updated()] whose
    fetch succeeds (after any number of failed ones) returns
    [(true, nil)], whatever the content, the empty content included, and
    stores the digest of that content. *)
Theorem first_successful_Updated_reports_change t wds wd content :
  Forall (fetch_fails t) wds ->
  Content t wd = (content, None) ->
  exists rs,
    polls (NewWatched t) wds = Some (NewWatched t, rs) /\
    Updated (NewWatched t) wd =
      Some (mkWatcher t (MD5.Sum content), (true, None)).
Proof.
  intros Hall HC.
  exists (map (failure_result t) wds). split.
  - now apply (polls_all_failing (NewWatched t)).
  - rewrite (Updated_fetched (NewWatched t) wd content HC). cbn [target lastHash NewWatched].
    repeat f_equal.
    destruct (bytes_eqb (MD5.Sum content) []) eqn:E; [|reflexivity].
    apply bytes_eqb_true in E. apply (f_equal (@List.length byte)) in E.
    rewrite md5_Sum_length in E. discriminate.
Qed.

Lemma changed_is_digest_differs w prev content :
  remembers w prev ->
  negb (bytes_eqb (MD5.Sum content) (lastHash w)) = digest_differs prev content.
Proof.
  unfold remembers. intros ->. destruct prev as [p|]; cbn [digest_differs].
  - f_equal. destruct (bytes_eqb (MD5.Sum content) (MD5.Sum p)) eqn:E.
    + apply bytes_eqb_true in E. rewrite E. symmetry. apply bytes_eqb_refl.
    + destruct (bytes_eqb (MD5.Sum p) (MD5.Sum content)) eqn:E'; [|reflexivity].
      apply bytes_eqb_true in E'. rewrite E', bytes_eqb_refl in E. discriminate.
  - destruct (bytes_eqb (MD5.Sum content) []) eqn:E; [|reflexivity].
    apply bytes_eqb_true in E. apply (f_equal (@List.length byte)) in E.
    rewrite md5_Sum_length in E. discriminate.
Qed.

Lemma polls_expected wds :
  forall w prev, remembers w prev ->
  exists w', polls w wds = Some (w', expected_polls (target w) prev wds).
Proof.
  induction wds as [|wd wds IH]; intros w prev Hrem; cbn [polls expected_polls].
  - eauto.
  - destruct (Content (target w) wd) as [content [msg|]] eqn:HC.
    + rewrite (Updated_failed _ _ _ _ HC). cbn [bind].
      destruct (IH w prev Hrem) as [w' ->]. cbn [bind]. eauto.
    + rewrite (Updated_fetched _ _ _ HC). cbn [bind].
      rewrite (changed_is_digest_differs w prev content Hrem).
      destruct (IH (mkWatcher (target w) (MD5.Sum content)) (Some content))
        as [w' Hw']; [reflexivity|].
      cbn [target] in Hw'. rewrite Hw'. cbn [bind]. eauto.
Qed.

(** C1 (amended). For every sequence of worlds the target is read in, the
    results of successive [Updated()] calls on a fresh watcher are those of
    [expected_polls]: a call whose fetch succeeds returns [changed = true]
    exactly when no fetch succeeded before or the MD5 digest of its content
    differs from the digest of the most recent successfully fetched
    content.  Hence identical content gives [(false, nil)], as often as it
    is polled, and [changed = true] after a successful fetch means that the
    content differs. *)
Theorem Updated_changed_iff_digest_differs t wds :
  (exists w', polls (NewWatched t) wds = Some (w', expected_polls t None wds)) /\
  (forall content, digest_differs (Some content) content = false) /\
  (forall p content, digest_differs (Some p) content = true -> p <> content).
Proof.
  split; [|split].
  - now apply (polls_expected wds (NewWatched t) None).
  - intros content. cbn. now rewrite bytes_eqb_refl.
  - intros p content Hd ->. cbn in Hd. now rewrite bytes_eqb_refl in Hd.
Qed.

End Polling.

(* ------------------------------------------------------------------ *)
(** ** The goroutine started by [OnInterval] *)

Section Interval.
Context {World T : Type} `{Watched World T}.
Implicit Types (w : watcher T) (wd : World) (st : loopState) (h : bytes).

(** [targetDiff] reads the watcher's target and nothing else of it. *)
Lemma targetDiff_frame w h token wd :
  targetDiff (mkWatcher (target w) h) token wd = targetDiff w token wd.
Proof. reflexivity. Qed.

Lemma loop_step_frame w h st c :
  loop_step (mkWatcher (target w) h) st c = loop_step w st c.
Proof. destruct st, c; reflexivity. Qed.

Lemma loop_run_frame w h cs :
  forall st, loop_run (mkWatcher (target w) h) st cs = loop_run w st cs.
Proof.
  induction cs as [|c cs IH]; intro st; cbn [loop_run]; [reflexivity|].
  rewrite loop_step_frame. destruct (loop_step w st c); cbn [bind]; auto.
Qed.

Lemma loop_run_same_target w w' cs st :
  target w' = target w -> loop_run w' st cs = loop_run w st cs.
Proof.
  destruct w' as [t' h']. cbn [target]. intros ->. apply loop_run_frame.
Qed.

(** A tick is always handled: the body of [case <-ticker.C] does not
    panic. *)
Lemma loop_tick_returns w h wd :
  exists st', loop_step w (Selecting h) (CaseTick wd) = Some st'.
Proof.
  cbn [loop_step]. unfold onTick.
  destruct (Content (target w) wd) as [content [msg|]] eqn:HC.
  - rewrite (targetDiff_failed _ _ _ _ _ HC). cbn [bind]. eauto.
  - rewrite (targetDiff_fetched _ _ _ _ HC).
    destruct (bytes_eqb _ _); cbn [bind]; eauto.
Qed.

(** Wherever the goroutine waits, [<-done] is a case it can take, and taking
    it closes the channel. *)
Lemma loop_done_closes w st :
  st <> Closed -> loop_step w st CaseDone = Some Closed.
Proof. destruct st; [reflexivity | reflexivity | congruence]. Qed.


(** C7. The goroutine keeps its own [lastHash].  Its steps depend on the
    watcher through the target only, whatever [lastHash] the watcher
    holds, and leave the watcher alone; [Updated] neither takes nor
    returns the goroutine's state.  So an interleaving of polls and
    goroutine steps on one watcher ends with the watcher that the polls
    alone produce and with the goroutine state that the goroutine's steps
    alone produce. *)
Theorem Updated_and_loop_do_not_interfere w st (evs : list (event World)) :
  (forall h c, loop_step (mkWatcher (target w) h) st c = loop_step w st c) /\
  run w st evs =
    match poll_run w (polled evs), loop_run w st (looped evs) with
    | Some w', Some st' => Some (w', st')
    | _, _ => None
    end.
Proof.
  split; [intros h c; apply loop_step_frame|].
  revert w st. induction evs as [|[wd|c] evs IH]; intros w st.
  - reflexivity.
  - cbn [run polled looped flat_map app poll_run].
    fold (polled evs). fold (looped evs).
    destruct (Updated_returns w wd) as (w' & r & -> & Ht). cbn [bind].
    rewrite IH. now rewrite (loop_run_same_target w w' _ _ Ht).
  - cbn [run polled looped flat_map app loop_run].
    fold (polled evs). fold (looped evs).
    destruct (loop_step w st c) as [st'|]; cbn [bind].
    + apply IH.
    + now destruct (poll_run w (polled evs)).
Qed.

End Interval.

(* ------------------------------------------------------------------ *)
(** ** The file target *)

Lemma watchedFile_Content_failed (wf : watchedFile) (fs : FileSystem)
      (content : bytes) (e : string) :
  ReadFile fs (path wf) = (content, Some e) ->
  Content wf fs = ([], Some ("Unable to read config file: " ++ e)%string).
Proof. intros HR. cbn. unfold watchedFile_Content. now rewrite HR. Qed.

(** C10. [File(path)] watches a file target built with [failOpen = true]:
    [FailOpen()] is [true], and whenever the file cannot be read [Updated()]
    on such a watcher, whatever hash it holds, returns [changed = true]
    with the error. *)
Theorem File_is_fail_open (p : string) :
  target (File p) = FileTarget p true /\
  FailOpen (target (File p)) = true /\
  forall (h : bytes) (fs : FileSystem) (content : bytes) (e : string),
    ReadFile fs p = (content, Some e) ->
    Updated (mkWatcher (target (File p)) h) fs =
      Some (mkWatcher (target (File p)) h,
            (true, Some (wrapped ("Unable to read config file: " ++ e)%string))).
Proof.
  split; [reflexivity|]. split; [reflexivity|].
  intros h fs content e HR.
  rewrite (Updated_failed (mkWatcher (target (File p)) h) fs []
             ("Unable to read config file: " ++ e)%string).
  - reflexivity.
  - now apply (watchedFile_Content_failed (FileTarget p true) fs content e).
Qed.

(* ------------------------------------------------------------------ *)
(** ** The properties on concrete files *)

(** Scenario A: ["hello"], unchanged, then rewritten to ["world"]. *)
Example scenario_A :
  polls (File "cfg") [holding hello; holding hello; holding world] =
  Some (mkWatcher (FileTarget "cfg" true) (MD5.Sum world),
        [(true, None); (false, None); (true, None)]).
Proof. vm_compute. reflexivity. Qed.

Lemma blockA_blockB_differ : blockA <> blockB.
Proof.
  intro E. apply (f_equal (fun l => nth 19 l x00)) in E. discriminate E.
Qed.

Lemma blockA_blockB_collide : MD5.Sum blockA = MD5.Sum blockB.
Proof. vm_compute. reflexivity. Qed.

(** C1, as stated, fails: the file goes from [blockA] to [blockB], two
    different byte sequences, and the second [Updated()] returns
    [(false, nil)], the two having the same MD5 digest. *)
Lemma Updated_misses_colliding_contents :
  blockA <> blockB /\
  polls (File "cfg") [holding blockA; holding blockB] =
  Some (mkWatcher (FileTarget "cfg" true) (MD5.Sum blockA),
        [(true, None); (false, None)]).
Proof.
  split; [exact blockA_blockB_differ|]. vm_compute. reflexivity.
Qed.

Lemma Updated_changed_iff_digest_differs_witness :
  digest_differs (Some hello) world = true /\ hello <> world.
Proof.
  split; [vm_compute; reflexivity|].
  apply (Updated_changed_iff_digest_differs
           (FileTarget "cfg" true) [holding hello; holding world]).
  vm_compute. reflexivity.
Defined.

Lemma Updated_always_failing_reports_failOpen_witness :
  Forall (fetch_fails (FileTarget "cfg" false)) [empty_fs; empty_fs] /\
  exists rs,
    polls (mkWatcher (FileTarget "cfg" false) (MD5.Sum hello)) [empty_fs; empty_fs]
    = Some (mkWatcher (FileTarget "cfg" false) (MD5.Sum hello), rs) /\
    List.length rs = 2%nat /\
    Forall (fun r => fst r = false /\ snd r <> None) rs.
Proof.
  assert (Hall : Forall (fetch_fails (FileTarget "cfg" false)) [empty_fs; empty_fs]).
  { repeat constructor; vm_compute; discriminate. }
  split; [exact Hall|].
  exact (Updated_always_failing_reports_failOpen
           (mkWatcher (FileTarget "cfg" false) (MD5.Sum hello))
           [empty_fs; empty_fs] Hall).
Defined.

Lemma first_successful_Updated_reports_change_witness :
  Forall (fetch_fails (FileTarget "cfg" true)) [empty_fs] /\
  Content (FileTarget "cfg" true) (holding []) = ([], None) /\
  exists rs,
    polls (File "cfg") [empty_fs] = Some (File "cfg", rs) /\
    Updated (File "cfg") (holding []) =
      Some (mkWatcher (FileTarget "cfg" true) (MD5.Sum []), (true, None)).
Proof.
  assert (Hall : Forall (fetch_fails (FileTarget "cfg" true)) [empty_fs]).
  { repeat constructor; vm_compute; discriminate. }
  assert (HC : Content (FileTarget "cfg" true) (holding []) = ([], None))
    by reflexivity.
  split; [exact Hall|]. split; [exact HC|].
  exact (first_successful_Updated_reports_change
           (FileTarget "cfg" true) [empty_fs] (holding []) [] Hall HC).
Defined.

Lemma Updated_error_keeps_lastHash_witness :
  Updated seen_hello empty_fs =
    Some (seen_hello,
          (true, Some (wrapped "Unable to read config file: open cfg: no such file or directory"))) /\
  lastHash seen_hello = lastHash seen_hello /\
  forall fs, Updated seen_hello fs = Updated seen_hello fs.
Proof.
  assert (HU : Updated seen_hello empty_fs =
    Some (seen_hello,
          (true, Some (wrapped "Unable to read config file: open cfg: no such file or directory"))))
    by reflexivity.
  split; [exact HU|].
  exact (Updated_error_keeps_lastHash seen_hello empty_fs seen_hello true
           (wrapped "Unable to read config file: open cfg: no such file or directory")
           HU).
Defined.

(** C5, as stated, fails: given the digest of ["hello"] as token and a file
    that cannot be read, [targetDiff] returns the nil slice, not the token. *)
Lemma targetDiff_failure_forgets_token :
  targetDiff (File "cfg") (MD5.Sum hello) empty_fs =
    Some ([], true,
          Some "Unable to get target content: Unable to read config file: open cfg: no such file or directory"%string) /\
  [] <> MD5.Sum hello.
Proof.
  split; [reflexivity|]. vm_compute. discriminate.
Qed.

Lemma targetDiff_failure_returns_nil_witness :
  Content (FileTarget "cfg" false) empty_fs =
    ([], Some "Unable to read config file: open cfg: no such file or directory"%string) /\
  targetDiff (mkWatcher (FileTarget "cfg" false) []) (MD5.Sum world) empty_fs =
    Some ([], false,
          Some (wrapped "Unable to read config file: open cfg: no such file or directory")).
Proof.
  split; [reflexivity|].
  exact (targetDiff_failure_returns_nil
           (mkWatcher (FileTarget "cfg" false) []) (MD5.Sum world) empty_fs []
           "Unable to read config file: open cfg: no such file or directory"
           eq_refl).
Defined.



(** A tick that sees new content does reach the send, and when the content
    is then left alone nothing more is sent. *)
Example loop_emits_once_per_change :
  loop_run (File "cfg") OnInterval
    [CaseTick (holding hello); CaseSend; CaseTick (holding hello);
     CaseTick empty_fs; CaseTick (holding hello)]
  = Some (Selecting (MD5.Sum hello)) /\
  loop_run (File "cfg") OnInterval [CaseTick (holding hello)]
  = Some (Emitting (MD5.Sum hello)).
Proof. split; vm_compute; reflexivity. Qed.

Lemma File_is_fail_open_witness :
  ReadFile empty_fs "cfg" = ([], Some "open cfg: no such file or directory"%string) /\
  Updated (File "cfg") empty_fs =
    Some (File "cfg",
          (true, Some (wrapped "Unable to read config file: open cfg: no such file or directory"))).
Proof.
  split; [reflexivity|].
  exact (proj2 (proj2 (File_is_fail_open "cfg")) [] empty_fs []
           "open cfg: no such file or directory"%string eq_refl).
Defined.


(* ================================================================== *)
(** * Further properties of the package *)

Lemma bytes_eqb_sym (a b : bytes) : bytes_eqb a b = bytes_eqb b a.
Proof.
  destruct (bytes_eqb a b) eqn:E, (bytes_eqb b a) eqn:E'; try reflexivity.
  - apply bytes_eqb_true in E. subst b. now rewrite bytes_eqb_refl in E'.
  - apply bytes_eqb_true in E'. subst b. now rewrite bytes_eqb_refl in E.
Qed.

(** X2. [byteSliceMatch] ranges over its first argument only, yet the order
    of the arguments does not matter, and a slice matches itself. *)
Theorem byteSliceMatch_symmetric (a b : bytes) :
  byteSliceMatch a b = byteSliceMatch b a /\ byteSliceMatch a a = Some true.
Proof.
  rewrite !byteSliceMatch_eqb. split.
  - f_equal. apply bytes_eqb_sym.
  - f_equal. apply bytes_eqb_refl.
Qed.

(* ------------------------------------------------------------------ *)
(** ** What one call leaves behind *)

Section CallEffects.
Context {World T : Type} `{Watched World T}.
Implicit Types (w : watcher T) (wd : World) (token content h : bytes).

(** X1. When the fetch succeeds, the fingerprint [targetDiff] returns is the
    MD5 digest of the content in both branches (the returned token of the
    unchanged branch is that digest), the error is nil, and a change is
    reported unless the token is that digest. *)
Theorem targetDiff_fetched_returns_digest w token wd content :
  Content (target w) wd = (content, None) ->
  exists changed,
    targetDiff w token wd = Some (MD5.Sum content, changed, None) /\
    (changed = false <-> token = MD5.Sum content).
Proof.
  intros HC. rewrite (targetDiff_fetched _ _ _ _ HC).
  destruct (bytes_eqb (MD5.Sum content) token) eqn:E.
  - apply bytes_eqb_true in E. exists false. rewrite <- E. now split.
  - exists true. split; [reflexivity|]. split; [discriminate|].
    intros ->. now rewrite bytes_eqb_refl in E.
Qed.

(** X3. [Updated] keeps the target, and changes the stored hash exactly when
    it returns [(true, nil)]; on every other result, errors included, the
    watcher it leaves is the watcher it found. *)
Theorem Updated_moves_hash_iff_change_without_error w wd w' r :
  Updated w wd = Some (w', r) ->
  target w' = target w /\
  (lastHash w' <> lastHash w <-> r = (true, None)) /\
  (r <> (true, None) -> w' = w).
Proof.
  destruct (Content (target w) wd) as [content [msg|]] eqn:HC.
  - rewrite (Updated_failed _ _ _ _ HC). intros [= <- <-].
    repeat split; try congruence.
  - rewrite (Updated_fetched _ _ _ HC). intros [= <- <-]. cbn [target lastHash].
    destruct (bytes_eqb (MD5.Sum content) (lastHash w)) eqn:E; cbn [negb].
    + apply bytes_eqb_true in E. rewrite E.
      repeat split; try congruence. now destruct w.
    + repeat split; try congruence.
      intros _ E'. rewrite E', bytes_eqb_refl in E. discriminate.
Qed.

(** X5. On a successful fetch the goroutine's tick and a manual poll holding
    the same hash decide alike: the tick goes to the send exactly when
    [Updated] returns [changed = true], and both keep the digest of the
    content. *)
Theorem tick_agrees_with_Updated w h wd content :
  Content (target w) wd = (content, None) ->
  exists changed,
    Updated (mkWatcher (target w) h) wd =
      Some (mkWatcher (target w) (MD5.Sum content), (changed, None)) /\
    onTick w h wd = Some (MD5.Sum content, changed) /\
    loop_step w (Selecting h) (CaseTick wd) =
      Some (if changed then Emitting (MD5.Sum content)
            else Selecting (MD5.Sum content)).
Proof.
  intros HC. exists (negb (bytes_eqb (MD5.Sum content) h)).
  split; [exact (Updated_fetched (mkWatcher (target w) h) wd content HC)|].
  cbn [loop_step]. unfold onTick. rewrite (targetDiff_fetched _ _ _ _ HC).
  destruct (bytes_eqb (MD5.Sum content) h) eqn:E; cbn [bind negb].
  - apply bytes_eqb_true in E. rewrite E. now split.
  - now split.
Qed.

End CallEffects.

(* ------------------------------------------------------------------ *)
(** ** What a history of polls leaves behind *)

Section PollHistory.
Context {World T : Type} `{Watched World T}.
Implicit Types (w : watcher T) (t : T) (wd : World) (wds : list World).

Lemma polls_remember wds :
  forall w prev w' rs,
    lastHash w = fingerprint prev ->
    polls w wds = Some (w', rs) ->
    target w' = target w /\
    lastHash w' = fingerprint (last_fetched (target w) prev wds) /\
    List.length rs = List.length wds.
Proof.
  induction wds as [|wd wds IH]; intros w prev w' rs Hrem;
    cbn [polls last_fetched].
  - intros [= <- <-]. auto.
  - destruct (Content (target w) wd) as [content [msg|]] eqn:HC.
    + rewrite (Updated_failed _ _ _ _ HC). cbn [bind].
      destruct (polls w wds) as [[w2 rs2]|] eqn:Hp; cbn [bind]; [|discriminate].
      intros [= <- <-]. destruct (IH w prev w2 rs2 Hrem Hp) as (Ht & Hh & Hl).
      cbn [List.length]. auto.
    + rewrite (Updated_fetched _ _ _ HC). cbn [bind].
      destruct (polls _ wds) as [[w2 rs2]|] eqn:Hp; cbn [bind]; [|discriminate].
      intros [= <- <-].
      destruct (IH (mkWatcher (target w) (MD5.Sum content)) (Some content)
                  w2 rs2 eq_refl Hp) as (Ht & Hh & Hl).
      cbn [target List.length] in *. auto.
Qed.

(** X4. After any history of polls on a fresh watcher, the target is the one
    given at construction, there is one result per call, and the stored
    hash is the MD5 digest of the content of the last fetch that succeeded,
    nil if none did: no failed fetch ever reaches it.  So the stored hash
    has 0 or 16 bytes. *)
Theorem polls_keep_digest_of_last_fetch t wds w' rs :
  polls (NewWatched t) wds = Some (w', rs) ->
  target w' = t /\
  lastHash w' = fingerprint (last_fetched t None wds) /\
  List.length rs = List.length wds /\
  (List.length (lastHash w') = 0%nat \/ List.length (lastHash w') = 16%nat).
Proof.
  intros Hp.
  destruct (polls_remember wds (NewWatched t) None w' rs eq_refl Hp)
    as (Ht & Hh & Hl).
  cbn [target NewWatched] in *. repeat split; try assumption.
  rewrite Hh. destruct (last_fetched t None wds) as [p|]; cbn [fingerprint].
  - right. apply md5_Sum_length.
  - now left.
Qed.

End PollHistory.

(* ------------------------------------------------------------------ *)
(** ** Runs of the goroutine *)

Section LoopRuns.
Context {World T : Type} `{Watched World T}.
Implicit Types (w : watcher T) (wd : World) (wds : list World)
         (st : loopState) (h : bytes) (cs : list (selectCase World)).

Lemma loop_run_app w cs1 :
  forall st cs2,
    loop_run w st (cs1 ++ cs2) =
    (st' <- loop_run w st cs1 ;; loop_run w st' cs2).
Proof.
  induction cs1 as [|c cs1 IH]; intros st cs2; cbn [app loop_run bind];
    [reflexivity|].
  destruct (loop_step w st c); cbn [bind]; auto.
Qed.

Lemma loop_closed_is_stuck w cs st' :
  loop_run w Closed cs = Some st' -> cs = [] /\ st' = Closed.
Proof.
  destruct cs as [|c cs]; cbn [loop_run loop_step].
  - intros [= <-]. auto.
  - destruct c; discriminate.
Qed.

(** What a tick does, by the outcome of the fetch. *)
Lemma loop_tick_cases w h wd :
  (exists content msg,
      Content (target w) wd = (content, Some msg) /\
      loop_step w (Selecting h) (CaseTick wd) = Some (Selecting h)) \/
  (exists content,
      Content (target w) wd = (content, None) /\
      MD5.Sum content = h /\
      loop_step w (Selecting h) (CaseTick wd) = Some (Selecting h)) \/
  (exists content,
      Content (target w) wd = (content, None) /\
      MD5.Sum content <> h /\
      loop_step w (Selecting h) (CaseTick wd) =
        Some (Emitting (MD5.Sum content))).
Proof.
  cbn [loop_step]. unfold onTick.
  destruct (Content (target w) wd) as [content [msg|]] eqn:HC.
  - left. exists content, msg. split; [reflexivity|].
    now rewrite (targetDiff_failed _ _ _ _ _ HC).
  - right. rewrite (targetDiff_fetched _ _ _ _ HC).
    destruct (bytes_eqb (MD5.Sum content) h) eqn:E; cbn [bind].
    + left. exists content. apply bytes_eqb_true in E. auto.
    + right. exists content. repeat split; try reflexivity.
      intros E'. rewrite E', bytes_eqb_refl in E. discriminate.
Qed.

Lemma loop_run_nothing_new w h wds :
  Forall (nothing_new (target w) h) wds ->
  loop_run w (Selecting h) (map CaseTick wds) = Some (Selecting h).
Proof.
  induction 1 as [|wd wds Hwd _ IH]; cbn [map loop_run]; [reflexivity|].
  unfold nothing_new in Hwd.
  destruct (loop_tick_cases w h wd)
    as [(c & m & HC & ->) | [(c & HC & _ & ->) | (c & HC & Hne & _)]];
    cbn [bind]; try exact IH.
  rewrite HC in Hwd. contradiction.
Qed.

(** X6. At most once per change: as long as the ticks see nothing new (the
    fetch fails, or the content has the digest the goroutine holds), the
    goroutine never reaches the send and keeps its hash, however many ticks
    there are. *)
Theorem loop_quiet_while_nothing_new w h wds :
  Forall (nothing_new (target w) h) wds ->
  loop_run w (Selecting h) (map CaseTick wds) = Some (Selecting h).
Proof. apply loop_run_nothing_new. Qed.

(** X7. The first tick whose fetch succeeds, after any number of failed
    ticks, takes the goroutine to the send with the digest of the content
    as its hash: the first observation counts as a change in the goroutine
    too. *)
Theorem loop_first_fetch_is_sent w wds wd content :
  Forall (fetch_fails (target w)) wds ->
  Content (target w) wd = (content, None) ->
  loop_run w OnInterval (map CaseTick wds ++ [CaseTick wd]) =
    Some (Emitting (MD5.Sum content)).
Proof.
  intros Hall HC. rewrite loop_run_app.
  assert (Hq : Forall (nothing_new (target w) []) wds).
  { eapply Forall_impl; [|exact Hall].
    intros x Hx. unfold fetch_fails in Hx. unfold nothing_new.
    destruct (Content (target w) x) as [c [m|]]; [exact I|now contradiction Hx]. }
  unfold OnInterval. rewrite (loop_run_nothing_new w [] wds Hq).
  cbn [bind loop_run].
  destruct (loop_tick_cases w [] wd)
    as [(c & m & HC' & _) | [(c & HC' & Hd & _) | (c & HC' & _ & ->)]].
  - congruence.
  - apply (f_equal (@List.length byte)) in Hd.
    rewrite md5_Sum_length in Hd. discriminate.
  - rewrite HC in HC'. now injection HC' as <-.
Qed.

Lemma fetched_cons (t : T) wd wds :
  fetched t (wd :: wds) =
  ((match snd (Content t wd) with None => 1 | Some _ => 0 end)
   + fetched t wds)%nat.
Proof.
  unfold fetched. cbn [filter].
  now destruct (snd (Content t wd)).
Qed.

Lemma loop_run_sends_bound w cs :
  forall st st',
    loop_run w st cs = Some st' ->
    (sends cs + pending st' <= fetched (target w) (ticks cs) + pending st)%nat.
Proof.
  induction cs as [|c cs IH]; intros st st'; cbn [loop_run].
  - intros [= <-]. cbn. lia.
  - destruct (loop_step w st c) as [st1|] eqn:Hs; cbn [bind]; [|discriminate].
    intros Hr. specialize (IH st1 st' Hr).
    destruct st as [h|h|], c as [|wd|]; try discriminate.
    + injection Hs as <-.
      change (sends (CaseDone :: cs)) with (sends cs).
      change (ticks (CaseDone :: cs)) with (ticks cs).
      cbn [pending] in *. lia.
    + change (sends (CaseTick wd :: cs)) with (sends cs).
      change (ticks (CaseTick wd :: cs)) with (wd :: ticks cs).
      rewrite fetched_cons.
      destruct (loop_tick_cases w h wd)
        as [(k & m & HC & Hk) | [(k & HC & _ & Hk) | (k & HC & _ & Hk)]];
        rewrite Hk in Hs; injection Hs as <-; rewrite HC;
        cbn [snd pending] in *; lia.
    + injection Hs as <-.
      change (sends (CaseDone :: cs)) with (sends cs).
      change (ticks (CaseDone :: cs)) with (ticks cs).
      cbn [pending] in *. lia.
    + injection Hs as <-.
      change (sends (CaseSend :: cs)) with (S (sends cs)).
      change (ticks (CaseSend :: cs)) with (ticks cs).
      cbn [pending] in *. lia.
Qed.

(** X8. In every run of the goroutine from its start, the notifications
    received number at most the ticks whose fetch succeeded: nothing is
    sent for a tick whose fetch failed, and nothing without a tick. *)
Theorem loop_sends_at_most_fetched_ticks w cs st' :
  loop_run w OnInterval cs = Some st' ->
  (sends cs <= fetched (target w) (ticks cs))%nat.
Proof.
  intros Hr. pose proof (loop_run_sends_bound w cs _ _ Hr) as Hb.
  cbn [pending OnInterval] in Hb. lia.
Qed.

(** X9. Taking [<-done], at the outer select or while a send is pending, is
    the last thing the goroutine does: the channel is closed and no case is
    taken after it, so no notification follows a cancellation that was
    seen. *)
Theorem loop_done_is_last w st cs1 cs2 st' :
  loop_run w st (cs1 ++ CaseDone :: cs2) = Some st' ->
  cs2 = [] /\ st' = Closed.
Proof.
  rewrite loop_run_app.
  destruct (loop_run w st cs1) as [st1|]; cbn [bind loop_run]; [|discriminate].
  destruct st1 as [h|h|]; cbn [loop_step bind]; try discriminate;
    apply loop_closed_is_stuck.
Qed.

Lemma loop_closed_after_done w cs :
  forall st, st <> Closed ->
    loop_run w st cs = Some Closed ->
    exists cs1, cs = cs1 ++ [CaseDone].
Proof.
  induction cs as [|c cs IH]; intros st Hst; cbn [loop_run].
  - intros [= ->]. contradiction.
  - destruct (loop_step w st c) as [st1|] eqn:Hs; cbn [bind]; [|discriminate].
    intros Hr.
    assert (Hc : st1 = Closed -> c = CaseDone).
    { intros ->. destruct st as [h|h|], c as [|wd|]; try discriminate;
        try reflexivity.
      destruct (loop_tick_cases w h wd)
        as [(k & m & _ & Hk) | [(k & _ & _ & Hk) | (k & _ & _ & Hk)]];
        rewrite Hk in Hs; discriminate. }
    destruct st1 as [h1|h1|].
    + destruct (IH (Selecting h1)) as [cs1 ->]; [discriminate|exact Hr|].
      now exists (c :: cs1).
    + destruct (IH (Emitting h1)) as [cs1 ->]; [discriminate|exact Hr|].
      now exists (c :: cs1).
    + rewrite (Hc eq_refl).
      destruct (loop_closed_is_stuck w cs Closed Hr) as [-> _].
      now exists [].
Qed.

(** X10. The goroutine closes the channel on [<-done] only: a run from the
    start that ends closed has [<-done] as its last case. *)
Theorem loop_closes_only_on_done w cs :
  loop_run w OnInterval cs = Some Closed ->
  exists cs1, cs = cs1 ++ [CaseDone].
Proof.
  apply loop_closed_after_done. discriminate.
Qed.

Lemma loop_run_hash w cs :
  forall st st' prev,
    loop_hash st = Some (fingerprint prev) ->
    loop_run w st cs = Some st' ->
    st' = Closed \/
    loop_hash st' =
      Some (fingerprint (last_fetched (target w) prev (ticks cs))).
Proof.
  induction cs as [|c cs IH]; intros st st' prev Hh; cbn [loop_run].
  - intros [= <-]. now right.
  - destruct (loop_step w st c) as [st1|] eqn:Hs; cbn [bind]; [|discriminate].
    intros Hr.
    destruct st as [h|h|], c as [|wd|]; try discriminate;
      cbn [loop_hash] in Hh; injection Hh as ->.
    + injection Hs as <-. left.
      now destruct (loop_closed_is_stuck w cs st' Hr).
    + assert (Hcs : ticks (CaseTick wd :: cs) = wd :: ticks cs) by reflexivity.
      rewrite Hcs. cbn [last_fetched].
      destruct (loop_tick_cases w (fingerprint prev) wd)
        as [(k & m & HC & Hk) | [(k & HC & Hd & Hk) | (k & HC & _ & Hk)]];
        rewrite Hk in Hs; injection Hs as <-; rewrite HC.
      * eapply (IH _ st' prev); [|exact Hr]. reflexivity.
      * eapply (IH _ st' (Some k)); [|exact Hr].
        cbn [loop_hash fingerprint]. now rewrite Hd.
      * eapply (IH _ st' (Some k)); [|exact Hr]. reflexivity.
    + injection Hs as <-. left.
      now destruct (loop_closed_is_stuck w cs st' Hr).
    + injection Hs as <-. eapply (IH _ st' prev); [|exact Hr]. reflexivity.
Qed.

(** X11. While the goroutine runs, whether at the outer select or with a
    send pending, its hash is the MD5 digest of the content of the last tick
    whose fetch succeeded, nil if none did; failed ticks, sends and the
    watcher's own hash have no part in it. *)
Theorem loop_keeps_digest_of_last_fetched_tick w cs st' :
  loop_run w OnInterval cs = Some st' ->
  st' <> Closed ->
  loop_hash st' =
    Some (fingerprint (last_fetched (target w) None (ticks cs))).
Proof.
  intros Hr Hne.
  destruct (loop_run_hash w cs OnInterval st' None eq_refl Hr) as [->|E];
    [contradiction|exact E].
Qed.

End LoopRuns.

(* ------------------------------------------------------------------ *)
(** ** Watchers on files *)

Lemma watchedFile_Content_read (wf : watchedFile) (fs : FileSystem)
      (content : bytes) :
  ReadFile fs (path wf) = (content, None) ->
  Content wf fs = (content, None).
Proof. intros HR. cbn. unfold watchedFile_Content. now rewrite HR. Qed.

Lemma FileTarget_Updated_cases (p : string) (b : bool) (h : bytes) (fs : FileSystem) :
  (forall content,
      ReadFile fs p = (content, None) ->
      Updated (mkWatcher (FileTarget p b) h) fs =
        Some (mkWatcher (FileTarget p b) (MD5.Sum content),
              (negb (bytes_eqb (MD5.Sum content) h), None))) /\
  (forall content e,
      ReadFile fs p = (content, Some e) ->
      Updated (mkWatcher (FileTarget p b) h) fs =
        Some (mkWatcher (FileTarget p b) h,
              (b, Some ("Unable to get target content: Unable to read config file: "
                          ++ e)%string))).
Proof.
  split.
  - intros content HR.
    exact (Updated_fetched (mkWatcher (FileTarget p b) h) fs content
             (watchedFile_Content_read (FileTarget p b) fs content HR)).
  - intros content e HR.
    exact (Updated_failed (mkWatcher (FileTarget p b) h) fs []
             ("Unable to read config file: " ++ e)%string
             (watchedFile_Content_failed (FileTarget p b) fs content e HR)).
Qed.

(** X12. A watcher on [FileTarget(path, failOpen)], whichever flag it was
    built with: when the file is read, [Updated] stores the MD5 digest of
    the bytes read and reports a change unless that digest is the stored
    hash; when the read fails, it keeps its hash and returns the flag with
    the read error wrapped twice. *)
Theorem FileTarget_Updated (p : string) (b : bool) (h : bytes) (fs : FileSystem) :
  (forall content,
      ReadFile fs p = (content, None) ->
      Updated (mkWatcher (FileTarget p b) h) fs =
        Some (mkWatcher (FileTarget p b) (MD5.Sum content),
              (negb (bytes_eqb (MD5.Sum content) h), None))) /\
  (forall content e,
      ReadFile fs p = (content, Some e) ->
      Updated (mkWatcher (FileTarget p b) h) fs =
        Some (mkWatcher (FileTarget p b) h,
              (b, Some ("Unable to get target content: Unable to read config file: "
                          ++ e)%string))).
Proof. apply FileTarget_Updated_cases. Qed.

(** X13. A watcher on a file looks at that file only: two file systems
    that agree on its path give the same [Updated] and the same tick,
    whatever else they hold. *)
Theorem watchedFile_reads_only_its_path
        (w : watcher watchedFile) (fs1 fs2 : FileSystem) :
  ReadFile fs1 (path (target w)) = ReadFile fs2 (path (target w)) ->
  Updated w fs1 = Updated w fs2 /\
  forall h, loop_step w (Selecting h) (CaseTick fs1)
            = loop_step w (Selecting h) (CaseTick fs2).
Proof.
  intros HR.
  assert (HC : Content (target w) fs1 = Content (target w) fs2).
  { cbn. unfold watchedFile_Content. now rewrite HR. }
  split.
  - unfold Updated, targetDiff. now rewrite HC.
  - intros h. cbn [loop_step]. unfold onTick, targetDiff. now rewrite HC.
Qed.

(* ------------------------------------------------------------------ *)
(** ** The further properties on concrete files *)

Lemma targetDiff_fetched_returns_digest_witness :
  Content (target (File "cfg")) (holding hello) = (hello, None) /\
  exists changed,
    targetDiff (File "cfg") [] (holding hello) =
      Some (MD5.Sum hello, changed, None) /\
    (changed = false <-> [] = MD5.Sum hello).
Proof.
  exact (conj eq_refl
           (targetDiff_fetched_returns_digest
              (File "cfg") [] (holding hello) hello eq_refl)).
Defined.

Lemma Updated_on_hello : 
  Updated (File "cfg") (holding hello) = Some (seen_hello, (true, None)).
Proof. vm_compute. reflexivity. Defined.

Lemma Updated_moves_hash_iff_change_without_error_witness :
  Updated (File "cfg") (holding hello) = Some (seen_hello, (true, None)) /\
  target seen_hello = target (File "cfg") /\
  (lastHash seen_hello <> lastHash (File "cfg") <->
   (true, @None string) = (true, None)) /\
  ((true, @None string) <> (true, None) -> seen_hello = File "cfg").
Proof.
  exact (conj Updated_on_hello
           (Updated_moves_hash_iff_change_without_error
              (File "cfg") (holding hello) seen_hello (true, None)
              Updated_on_hello)).
Defined.

Lemma tick_agrees_with_Updated_witness :
  Content (target (File "cfg")) (holding world) = (world, None) /\
  exists changed,
    Updated (mkWatcher (target (File "cfg")) (MD5.Sum hello)) (holding world) =
      Some (mkWatcher (target (File "cfg")) (MD5.Sum world), (changed, None)) /\
    onTick (File "cfg") (MD5.Sum hello) (holding world) =
      Some (MD5.Sum world, changed) /\
    loop_step (File "cfg") (Selecting (MD5.Sum hello)) (CaseTick (holding world)) =
      Some (if changed then Emitting (MD5.Sum world)
            else Selecting (MD5.Sum world)).
Proof.
  exact (conj eq_refl
           (tick_agrees_with_Updated
              (File "cfg") (MD5.Sum hello) (holding world) world eq_refl)).
Defined.

Lemma polls_hello_then_gone :
  polls (NewWatched (FileTarget "cfg" true)) [holding hello; empty_fs] =
  Some (seen_hello,
        [(true, None);
         (true, Some (wrapped "Unable to read config file: open cfg: no such file or directory"))]).
Proof. vm_compute. reflexivity. Defined.

Lemma polls_keep_digest_of_last_fetch_witness :
  polls (NewWatched (FileTarget "cfg" true)) [holding hello; empty_fs] =
  Some (seen_hello,
        [(true, None);
         (true, Some (wrapped "Unable to read config file: open cfg: no such file or directory"))]) /\
  lastHash seen_hello =
    fingerprint (last_fetched (FileTarget "cfg" true) None [holding hello; empty_fs]).
Proof.
  split; [exact polls_hello_then_gone|].
  exact (proj1 (proj2 (polls_keep_digest_of_last_fetch
                         (FileTarget "cfg" true) [holding hello; empty_fs]
                         seen_hello _ polls_hello_then_gone))).
Defined.

Lemma loop_quiet_while_nothing_new_witness :
  Forall (nothing_new (target (File "cfg")) (MD5.Sum hello))
         [holding hello; empty_fs; holding hello] /\
  loop_run (File "cfg") (Selecting (MD5.Sum hello))
           (map CaseTick [holding hello; empty_fs; holding hello]) =
    Some (Selecting (MD5.Sum hello)).
Proof.
  assert (Hq : Forall (nothing_new (target (File "cfg")) (MD5.Sum hello))
                      [holding hello; empty_fs; holding hello]).
  { apply Forall_cons; [exact eq_refl|].
    apply Forall_cons; [exact I|].
    apply Forall_cons; [exact eq_refl|]. apply Forall_nil. }
  exact (conj Hq (loop_quiet_while_nothing_new
                    (File "cfg") (MD5.Sum hello)
                    [holding hello; empty_fs; holding hello] Hq)).
Defined.

Lemma loop_first_fetch_is_sent_witness :
  Forall (fetch_fails (target (File "cfg"))) [empty_fs; empty_fs] /\
  loop_run (File "cfg") OnInterval
           (map CaseTick [empty_fs; empty_fs] ++ [CaseTick (holding [])]) =
    Some (Emitting (MD5.Sum [])).
Proof.
  assert (Hall : Forall (fetch_fails (target (File "cfg"))) [empty_fs; empty_fs]).
  { repeat apply Forall_cons; try apply Forall_nil; vm_compute; discriminate. }
  exact (conj Hall (loop_first_fetch_is_sent
                      (File "cfg") [empty_fs; empty_fs] (holding []) []
                      Hall eq_refl)).
Defined.

Lemma loop_run_hello_sent_then_gone :
  loop_run (File "cfg") OnInterval
           [CaseTick (holding hello); CaseSend; CaseTick empty_fs] =
  Some (Selecting (MD5.Sum hello)).
Proof. vm_compute. reflexivity. Defined.

Lemma loop_sends_at_most_fetched_ticks_witness :
  (sends [CaseTick (holding hello); CaseSend; CaseTick empty_fs]
   <= fetched (target (File "cfg"))
              (ticks [CaseTick (holding hello); CaseSend; CaseTick empty_fs]))%nat.
Proof.
  exact (loop_sends_at_most_fetched_ticks
           (File "cfg") [CaseTick (holding hello); CaseSend; CaseTick empty_fs]
           _ loop_run_hello_sent_then_gone).
Defined.

Lemma loop_keeps_digest_of_last_fetched_tick_witness :
  loop_hash (Selecting (MD5.Sum hello)) =
    Some (fingerprint
            (last_fetched (target (File "cfg")) None
               (ticks [CaseTick (holding hello); CaseSend; CaseTick empty_fs]))).
Proof.
  apply (loop_keeps_digest_of_last_fetched_tick
           (File "cfg") [CaseTick (holding hello); CaseSend; CaseTick empty_fs]
           (Selecting (MD5.Sum hello)) loop_run_hello_sent_then_gone).
  discriminate.
Defined.

Lemma loop_run_cancelled_while_sending :
  loop_run (File "cfg") OnInterval ([CaseTick (holding hello)] ++ CaseDone :: []) =
  Some Closed.
Proof. vm_compute. reflexivity. Defined.

Lemma loop_done_is_last_witness :
  loop_run (File "cfg") OnInterval ([CaseTick (holding hello)] ++ CaseDone :: []) =
    Some Closed /\
  @nil (selectCase FileSystem) = [] /\ Closed = Closed.
Proof.
  exact (conj loop_run_cancelled_while_sending
           (loop_done_is_last (File "cfg") OnInterval
              [CaseTick (holding hello)] [] Closed
              loop_run_cancelled_while_sending)).
Defined.

Lemma loop_closes_only_on_done_witness :
  exists cs1, [CaseTick (holding hello); CaseDone] = cs1 ++ [CaseDone].
Proof.
  exact (loop_closes_only_on_done
           (File "cfg") [CaseTick (holding hello); CaseDone]
           loop_run_cancelled_while_sending).
Defined.

Lemma FileTarget_Updated_witness :
  ReadFile empty_fs "cfg" = ([], Some "open cfg: no such file or directory"%string) /\
  Updated (mkWatcher (FileTarget "cfg" false) (MD5.Sum hello)) empty_fs =
    Some (mkWatcher (FileTarget "cfg" false) (MD5.Sum hello),
          (false,
           Some ("Unable to get target content: Unable to read config file: "
                   ++ "open cfg: no such file or directory")%string)).
Proof.
  exact (conj eq_refl
           (proj2 (FileTarget_Updated "cfg" false (MD5.Sum hello) empty_fs)
              [] "open cfg: no such file or directory"%string eq_refl)).
Defined.

Lemma watchedFile_reads_only_its_path_witness :
  ReadFile (holding hello) (path (target (File "cfg")))
  = ReadFile crowded_fs (path (target (File "cfg"))) /\
  Updated (File "cfg") (holding hello) = Updated (File "cfg") crowded_fs.
Proof.
  exact (conj eq_refl
           (proj1 (watchedFile_reads_only_its_path
                     (File "cfg") (holding hello) crowded_fs eq_refl))).
Defined.

(* ------------------------------------------------------------------ *)
(** ** The demo's poll mode *)

Lemma polls_return {World T : Type} `{Watched World T}
      (wds : list World) :
  forall w : watcher T,
  exists w' rs, polls w wds = Some (w', rs) /\
                List.length rs = List.length wds.
Proof.
  induction wds as [|wd wds IH]; intro w; cbn [polls].
  - exists w, []. auto.
  - destruct (Updated_returns w wd) as (w1 & r & -> & _). cbn [bind].
    destruct (IH w1) as (w2 & rs & -> & Hl). cbn [bind].
    exists w2, (r :: rs). cbn [List.length]. auto.
Qed.


(** X14. In poll mode the first line printed reports a change, whatever the
    file system holds: a file that is read is a first observation, and a
    file that cannot be read is reported changed because [File] builds a
    fail-open target.  One line is printed per tick. *)
Theorem mainPoll_first_line_reports_change
        (p : string) (fs : FileSystem) (fss : list FileSystem) :
  exists rest lines,
    mainPoll p (fs :: fss) = Some (("Updated? true, " ++ rest)%string :: lines) /\
    List.length lines = List.length fss.
Proof.
  unfold mainPoll. cbn [polls].
  assert (Hfirst : exists w1 e, Updated (File p) fs = Some (w1, (true, e))).
  { unfold File, NewWatched.
    destruct (ReadFile fs p) as [content [e|]] eqn:HR.
    - rewrite (proj2 (FileTarget_Updated_cases p true [] fs) content e HR). eauto.
    - rewrite (proj1 (FileTarget_Updated_cases p true [] fs) content HR).
      destruct (bytes_eqb (MD5.Sum content) []) eqn:E; cbn [negb]; [|eauto].
      apply bytes_eqb_true in E. apply (f_equal (@List.length byte)) in E.
      rewrite md5_Sum_length in E. discriminate. }
  destruct Hfirst as (w1 & e & ->). cbn [bind].
  destruct (polls_return fss w1) as (w2 & rs & -> & Hl). cbn [bind map].
  exists (format_error e ++ newline)%string, (map poll_line rs).
  split; [reflexivity|]. now rewrite length_map.
Qed.


